(** * etcdutil: the leader getter of [server/etcdutil/get_leader.go]

    The Go file declares a one-method interface, [EtcdLeaderGetter], and
    its implementation by [*LeaderGetterWrapper], a struct holding a
    pointer to the embedded etcd server:

<<
    func (w *LeaderGetterWrapper) EtcdLeaderID() (uint64, error) {
        return w.Server.Lead(), nil
    }
>>

    The embedding keeps what the Go code has: pointers into a store (the
    engine is shared with its owner, never copied), the zero pointer,
    the run-time panic of a nil dereference, and a pair result whose
    second component is a Go [error].  Every computation also reports
    the primitive steps it performed, so that "one read of the engine,
    no retry" is a statement about the method and not about its result
    only. *)

From Stdlib Require Import ZArith.
From stdpp Require Import base option list gmap strings.

Local Open Scope Z_scope.

(** ** Go values *)

(** [uint64]: an integer of 64 bits.  The method does no arithmetic on
    it, so no wrap-around appears below; the range is kept in the type. *)
Record uint64 : Type := Uint64 {
  u64_Z : Z;
  u64_range : bool_decide (0 ≤ u64_Z < 2 ^ 64)
}.

Lemma mod_two_64_range (z : Z) : bool_decide (0 ≤ z `mod` 2 ^ 64 < 2 ^ 64).
Proof. apply bool_decide_pack, Z.mod_pos_bound. reflexivity. Qed.

(** Conversion [uint64(z)] of an integer constant. *)
Definition U64 (z : Z) : uint64 := Uint64 (z `mod` 2 ^ 64) (mod_two_64_range z).

(** Go's [error] interface value: [nil], or an error carrying a message. *)
Inductive error : Type :=
  | err_nil
  | err_new (msg : string).

(** Addresses, and pointers of static type [*T]: the zero value [nilptr]
    or the address of an allocated [T]. *)
Definition loc : Type := positive.

Inductive ptr (T : Type) : Type :=
  | nilptr
  | Ptr (l : loc).
Arguments nilptr {T}.
Arguments Ptr {T} l.

(** Run-time panics.  The only one this file can raise is Go's
    "invalid memory address or nil pointer dereference". *)
Inductive panic : Type :=
  | NilPointerDereference.

(** How a call ends: with its results, or by panicking. *)
Inductive outcome (A : Type) : Type :=
  | Ret (a : A)
  | Panic (p : panic).
Arguments Ret {A} a.
Arguments Panic {A} p.

(** The primitive steps a computation performs, in order. *)
Inductive event : Type :=
  | EvAlloc (w : loc)        (* a [LeaderGetterWrapper] is allocated at [w] *)
  | EvLoadServer (w : loc)   (* field [Server] of the wrapper at [w] is read *)
  | EvLead (e : loc).        (* [Lead()] is called on the engine at [e] *)

Definition is_EvLead (ev : event) : bool :=
  match ev with EvLead _ => true | _ => false end.

(** Number of calls of the engine's accessor in a trace. *)
Definition Lead_calls (t : list event) : nat := length (List.filter is_EvLead t).

(** The sentinel for "no leader known".  etcd's raft package declares it,
    [const None uint64 = 0], and the specification's design notes name
    the same value; it belongs to the imported library, and the
    repository's file never mentions it. *)
Definition raft_None : uint64 := U64 0.

(** The imported type [etcdserver.EtcdServer] is not part of this
    repository.  It is a parameter: any type of engine states, with the
    one observation the method makes of it, the value of the
    leader-tracking field that [Lead()] loads. *)
Class Engine (EtcdServer : Type) : Type :=
  lead : EtcdServer → uint64.

Section etcdutil.

Context `{Engine EtcdServer}.

(** [type LeaderGetterWrapper struct { Server *etcdserver.EtcdServer }] *)
Record LeaderGetterWrapper : Type := mkLeaderGetterWrapper {
  Server : ptr EtcdServer
}.

(** The store: the engines and the wrappers that are allocated. *)
Record store : Type := mkStore {
  engines : gmap loc EtcdServer;
  wrappers : gmap loc LeaderGetterWrapper
}.

(** Computations: from a store to an outcome, the store afterwards and
    the steps performed. *)
Definition M (A : Type) : Type := store → outcome A * store * list event.

Definition result_of {A} (r : outcome A * store * list event) : outcome A := r.1.1.
Definition store_of {A} (r : outcome A * store * list event) : store := r.1.2.
Definition trace_of {A} (r : outcome A * store * list event) : list event := r.2.

#[global] Instance M_ret : MRet M := λ A (a : A) σ, (Ret a, σ, []).

#[global] Instance M_bind : MBind M := λ A B (f : A → M B) (m : M A) σ,
  match m σ with
  | (Ret a, σ1, t1) =>
      match f a σ1 with
      | (r, σ2, t2) => (r, σ2, t1 ++ t2)
      end
  | (Panic p, σ1, t1) => (Panic p, σ1, t1)
  end.

Definition raise {A} (p : panic) : M A := λ σ, (Panic p, σ, []).

(** The selector [w.Server] on a pointer receiver: it dereferences [w].
    In Go a pointer that is not nil points to a live object; an address
    the store does not hold gets the same panic as nil here, so that
    the function is total. *)
Definition load_Server (w : ptr LeaderGetterWrapper) : M (ptr EtcdServer) :=
  match w with
  | nilptr => raise NilPointerDereference
  | Ptr a => λ σ,
      match wrappers σ !! a with
      | Some wr => (Ret (Server wr), σ, [EvLoadServer a])
      | None => (Panic NilPointerDereference, σ, [])
      end
  end.

(** The imported method [func (s *EtcdServer) Lead() uint64]: an
    atomic load of the engine's leader field.  It reads the engine and
    changes nothing; on a nil receiver the load dereferences nil. *)
Definition etcdserver_Lead (s : ptr EtcdServer) : M uint64 :=
  match s with
  | nilptr => raise NilPointerDereference
  | Ptr l => λ σ,
      match engines σ !! l with
      | Some e => (Ret (lead e), σ, [EvLead l])
      | None => (Panic NilPointerDereference, σ, [])
      end
  end.

(** [type EtcdLeaderGetter interface { EtcdLeaderID() (uint64, error) }] *)
Class EtcdLeaderGetter (T : Type) : Type :=
  EtcdLeaderID : T → M (uint64 * error).

(** [func (w *LeaderGetterWrapper) EtcdLeaderID() (uint64, error)]:
    [return w.Server.Lead(), nil]. *)
#[global] Instance LeaderGetterWrapper_EtcdLeaderID :
  EtcdLeaderGetter (ptr LeaderGetterWrapper) := λ w,
  s ← load_Server w;
  id ← etcdserver_Lead s;
  mret (id, err_nil).

(** Modelled from the spec: the construction of an adapter.  The file
    declares the struct and no constructor, and the callers that build
    an adapter are not among the sources.  The specification's
    construction contract: the adapter is constructed with a reference
    to an existing engine, and constructing it performs no validation
    and has no side effects.  In Go that is the composite literal
    [&LeaderGetterWrapper{Server: h}]: a fresh wrapper whose field is
    [h], whatever [h] is. *)
Definition new_LeaderGetterWrapper (h : ptr EtcdServer) : M (ptr LeaderGetterWrapper) :=
  λ σ,
    let a := fresh (dom (wrappers σ)) in
    (Ret (Ptr a),
     mkStore (engines σ) (<[a := mkLeaderGetterWrapper h]> (wrappers σ)),
     [EvAlloc a]).

(** The engine an adapter wraps, when its receiver and its handle both
    point to allocated objects. *)
Definition backing_engine (σ : store) (w : ptr LeaderGetterWrapper) : option EtcdServer :=
  match w with
  | nilptr => None
  | Ptr a =>
      match wrappers σ !! a with
      | Some wr =>
          match Server wr with
          | nilptr => None
          | Ptr l => engines σ !! l
          end
      | None => None
      end
  end.

Definition wraps (σ : store) (w : ptr LeaderGetterWrapper) (e : EtcdServer) : Prop :=
  backing_engine σ w = Some e.

End etcdutil.

Arguments LeaderGetterWrapper : clear implicits.
Arguments store : clear implicits.
Arguments M : clear implicits.

(** ** Drivers

    Programs in [M] that run the method the way the scenarios do. *)

Section drivers.

Context `{Engine EtcdServer}.

(** The engine's own activity: its owner replaces the state of the
    engine at [l] (a new leader is learned, a term passes, entries are
    applied).  The adapter has no part in it. *)
Definition engine_activity (l : loc) (e : EtcdServer) : M EtcdServer unit :=
  λ σ, (Ret (), mkStore (<[l := e]> (engines σ)) (wrappers σ), []).

(** One call, then the engine moves on to [e'], then a second call. *)
Definition query_activity_query (w : ptr (LeaderGetterWrapper EtcdServer))
    (l : loc) (e' : EtcdServer) : M EtcdServer ((uint64 * error) * (uint64 * error)) :=
  r1 ← EtcdLeaderID w;
  _ ← engine_activity l e';
  r2 ← EtcdLeaderID w;
  mret (r1, r2).

(** One call per element of [es]: before each call the engine at [l]
    takes the next state of [es]. *)
Fixpoint calls_under_activity (w : ptr (LeaderGetterWrapper EtcdServer))
    (l : loc) (es : list EtcdServer) : M EtcdServer (list (uint64 * error)) :=
  match es with
  | [] => mret []
  | e :: es' =>
      _ ← engine_activity l e;
      r ← EtcdLeaderID w;
      rs ← calls_under_activity w l es';
      mret (r :: rs)
  end.

(** The address in the adapter's [Server] field, when it is not nil. *)
Definition handle (σ : store EtcdServer) (w : ptr (LeaderGetterWrapper EtcdServer)) : option loc :=
  match w with
  | nilptr => None
  | Ptr a =>
      match wrappers σ !! a with
      | Some wr => match Server wr with nilptr => None | Ptr l => Some l end
      | None => None
      end
  end.

(** The error component of a call that returned. *)
Definition error_of (r : outcome (uint64 * error)) : option error :=
  match r with
  | Ret (_, err) => Some err
  | Panic _ => None
  end.

(** What the specification asks of a backend without a leader: the
    query ends with a non-nil error. *)
Definition no_leader_is_an_error : Prop :=
  ∀ (σ : store EtcdServer) w e,
    wraps σ w e → lead e = raft_None →
    ∃ id msg, result_of (EtcdLeaderID w σ) = Ret (id, err_new msg).

End drivers.

(** ** The call, step by step

    The Go expression [w.Server.Lead()] is evaluated in two steps, the
    field read and the accessor call, and other goroutines may run
    between them.  [caller] is where one call stands; a [system] is a
    number of calls in flight over one shared store. *)

Section steps.

Context `{Engine EtcdServer}.

Inductive caller : Type :=
  | Invoked                                   (* nothing evaluated yet *)
  | Loaded (s : ptr EtcdServer)               (* [w.Server] evaluated to [s] *)
  | Returned (r : outcome (uint64 * error)).  (* the call is over *)

(** One step of the call on receiver [w]: the primitive of the method
    that comes next, run on the store as it is now. *)
Definition caller_step (w : ptr (LeaderGetterWrapper EtcdServer)) (c : caller)
    (σ : store EtcdServer) : caller * store EtcdServer :=
  match c with
  | Invoked =>
      match load_Server w σ with
      | (Ret s, σ', _) => (Loaded s, σ')
      | (Panic p, σ', _) => (Returned (Panic p), σ')
      end
  | Loaded s =>
      match etcdserver_Lead s σ with
      | (Ret id, σ', _) => (Returned (Ret (id, err_nil)), σ')
      | (Panic p, σ', _) => (Returned (Panic p), σ')
      end
  | Returned r => (Returned r, σ)
  end.

(** Steps of a call that are behind it: 0, 1 or 2. *)
Definition steps_done (c : caller) : nat :=
  match c with
  | Invoked => 0
  | Loaded _ => 1
  | Returned _ => 2
  end.

(** What the scheduler may pick: the next step of call [i], or a move
    of the engine at [l] to state [e]. *)
Inductive action : Type :=
  | Run (i : nat)
  | Activity (l : loc) (e : EtcdServer).

Record system : Type := mkSystem {
  callers : list (ptr (LeaderGetterWrapper EtcdServer) * caller);
  shared : store EtcdServer
}.

Definition system_step (act : action) (sys : system) : system :=
  match act with
  | Run i =>
      match callers sys !! i with
      | Some (w, c) =>
          mkSystem (<[i := (w, (caller_step w c (shared sys)).1)]> (callers sys))
                   (caller_step w c (shared sys)).2
      | None => sys
      end
  | Activity l e =>
      mkSystem (callers sys) (store_of (engine_activity l e (shared sys)))
  end.

Fixpoint run_schedule (sched : list action) (sys : system) : system :=
  match sched with
  | [] => sys
  | act :: sched' => run_schedule sched' (system_step act sys)
  end.

(** How often the schedule picks call [i]. *)
Fixpoint runs_of (i : nat) (sched : list action) : nat :=
  match sched with
  | [] => 0
  | Run j :: sched' => (if decide (i = j) then 1 else 0) + runs_of i sched'
  | Activity _ _ :: sched' => runs_of i sched'
  end.

(** The schedule keeps the leader field of the engine at [l] at [L]. *)
Definition keeps_leader (l : loc) (L : uint64) (act : action) : Prop :=
  match act with
  | Run _ => True
  | Activity l' e => l' = l → lead e = L
  end.

(** What holds of a call in flight while the adapter points to the
    engine at [l] and that engine's leader is [L]. *)
Definition caller_stable (σ : store EtcdServer) (l : loc) (L : uint64)
    (wc : ptr (LeaderGetterWrapper EtcdServer) * caller) : Prop :=
  handle σ wc.1 = Some l
  ∧ (wc.2 = Invoked ∨ wc.2 = Loaded (Ptr l) ∨ wc.2 = Returned (Ret (L, err_nil))).

Definition system_stable (l : loc) (L : uint64) (sys : system) : Prop :=
  (∃ e, engines (shared sys) !! l = Some e ∧ lead e = L)
  ∧ Forall (caller_stable (shared sys) l L) (callers sys).

(** Go's memory safety, as far as this file needs it: the [Server]
    field of an allocated adapter is nil or points to an allocated
    engine. *)
Definition closed (σ : store EtcdServer) : Prop :=
  ∀ a wr l, wrappers σ !! a = Some wr → Server wr = Ptr l → is_Some (engines σ !! l).

(** Two adapters are built from one handle, the engine moves on to
    [e'], and both adapters are asked. *)
Definition two_adapters_one_engine (l : loc) (e' : EtcdServer) :
    M EtcdServer (ptr (LeaderGetterWrapper EtcdServer) * ptr (LeaderGetterWrapper EtcdServer)
                  * (uint64 * error) * (uint64 * error)) :=
  w1 ← new_LeaderGetterWrapper (Ptr l);
  w2 ← new_LeaderGetterWrapper (Ptr l);
  _ ← engine_activity l e';
  r1 ← EtcdLeaderID w1;
  r2 ← EtcdLeaderID w2;
  mret (w1, w2, r1, r2).

End steps.

Arguments caller : clear implicits.
Arguments action : clear implicits.
Arguments system : clear implicits.

(** ** A concrete engine for the scenarios

    A state with a leader field and two more fields the method never
    looks at. *)
Record raft_state : Type := mkRaftState {
  rs_lead : uint64;
  rs_term : uint64;
  rs_applied : uint64
}.

#[global] Instance raft_state_Engine : Engine raft_state := rs_lead.

(** A store with one engine at address 1 in state [e] and one adapter
    at address 2 whose [Server] field points to it. *)
Definition one_engine (e : raft_state) : store raft_state :=
  mkStore {[ 1%positive := e ]} {[ 2%positive := mkLeaderGetterWrapper (Ptr 1%positive) ]}.

(** The same with a second, unrelated engine and a different layout. *)
Definition two_engines (e other : raft_state) : store raft_state :=
  mkStore {[ 5%positive := e; 6%positive := other ]}
          {[ 3%positive := mkLeaderGetterWrapper (Ptr 5%positive) ]}.

(** A store whose only adapter was built from the nil handle. *)
Definition nil_handle : store raft_state :=
  mkStore ∅ {[ 2%positive := mkLeaderGetterWrapper nilptr ]}.

Definition leader7 : raft_state := mkRaftState (U64 7) (U64 3) (U64 120).
Definition leader42 : raft_state := mkRaftState (U64 42) (U64 5) (U64 311).
Definition leaderless : raft_state := mkRaftState raft_None (U64 4) (U64 120).

(** ** Properties of the method *)

Section properties.

Context `{Engine EtcdServer}.

Implicit Types (σ : store EtcdServer) (w : ptr (LeaderGetterWrapper EtcdServer)).
Implicit Types (e : EtcdServer) (h : ptr EtcdServer) (a l : loc).

(** The method, case by case: the two dereferences in the order the
    Go expression [w.Server.Lead()] performs them. *)
Lemma EtcdLeaderID_unfold σ w :
  EtcdLeaderID w σ =
    match w with
    | nilptr => (Panic NilPointerDereference, σ, [])
    | Ptr a =>
        match wrappers σ !! a with
        | None => (Panic NilPointerDereference, σ, [])
        | Some wr =>
            match Server wr with
            | nilptr => (Panic NilPointerDereference, σ, [EvLoadServer a])
            | Ptr l =>
                match engines σ !! l with
                | None => (Panic NilPointerDereference, σ, [EvLoadServer a])
                | Some e => (Ret (lead e, err_nil), σ, [EvLoadServer a; EvLead l])
                end
            end
        end
    end.
Proof.
  unfold EtcdLeaderID, LeaderGetterWrapper_EtcdLeaderID, mbind, M_bind, mret, M_ret.
  destruct w as [|a]; simpl; [done|].
  destruct (wrappers σ !! a) as [[[|l]]|]; simpl; try done.
  destruct (engines σ !! l); done.
Qed.

Lemma wraps_inv σ w e :
  wraps σ w e →
  ∃ a l, w = Ptr a
         ∧ wrappers σ !! a = Some (mkLeaderGetterWrapper (Ptr l))
         ∧ engines σ !! l = Some e.
Proof.
  unfold wraps, backing_engine. destruct w as [|a]; [done|].
  destruct (wrappers σ !! a) as [[[|l]]|] eqn:Hw; simpl; try done.
  intros He. by exists a, l.
Qed.

Lemma handle_inv σ w l :
  handle σ w = Some l →
  ∃ a, w = Ptr a ∧ wrappers σ !! a = Some (mkLeaderGetterWrapper (Ptr l)).
Proof.
  unfold handle. destruct w as [|a]; [done|].
  destruct (wrappers σ !! a) as [[[|l']]|] eqn:Hw; simpl; try done.
  intros [= ->]. by exists a.
Qed.

Lemma wraps_handle σ w e :
  wraps σ w e ↔ ∃ l, handle σ w = Some l ∧ engines σ !! l = Some e.
Proof.
  unfold wraps, backing_engine, handle. destruct w as [|a].
  - split; [done | by intros (? & ? & ?)].
  - destruct (wrappers σ !! a) as [[[|l]]|]; simpl.
    + split; [done | by intros (? & ? & ?)].
    + split; [by exists l | by intros (? & [= <-] & ?)].
    + split; [done | by intros (? & ? & ?)].
Qed.

(** A call on an adapter that wraps an engine: result, store and steps. *)
Lemma EtcdLeaderID_wraps σ w e :
  wraps σ w e →
  ∃ a l, EtcdLeaderID w σ = (Ret (lead e, err_nil), σ, [EvLoadServer a; EvLead l]).
Proof.
  intros (a & l & -> & Hw & He)%wraps_inv. exists a, l.
  rewrite EtcdLeaderID_unfold, Hw. simpl. by rewrite He.
Qed.

Lemma EtcdLeaderID_store σ w : store_of (EtcdLeaderID w σ) = σ.
Proof.
  rewrite EtcdLeaderID_unfold. destruct w as [|a]; [done|].
  destruct (wrappers σ !! a) as [[[|l]]|]; simpl; try done.
  by destruct (engines σ !! l).
Qed.

Lemma EtcdLeaderID_error_nil σ w id err :
  result_of (EtcdLeaderID w σ) = Ret (id, err) → err = err_nil.
Proof.
  rewrite EtcdLeaderID_unfold. destruct w as [|a]; [done|].
  destruct (wrappers σ !! a) as [[[|l]]|]; simpl; try done.
  destruct (engines σ !! l); simpl; [|done]. by intros [= _ <-].
Qed.

Lemma EtcdLeaderID_panics_iff σ w :
  result_of (EtcdLeaderID w σ) = Panic NilPointerDereference ↔ backing_engine σ w = None.
Proof.
  rewrite EtcdLeaderID_unfold. unfold backing_engine. destruct w as [|a]; [done|].
  destruct (wrappers σ !! a) as [[[|l]]|]; simpl; try done.
  by destruct (engines σ !! l).
Qed.

(** Activity of the engine leaves the adapters alone. *)
Lemma handle_engine_activity σ w l' e' :
  handle (store_of (engine_activity l' e' σ)) w = handle σ w.
Proof. done. Qed.

Lemma EtcdLeaderID_after_activity σ w l e :
  handle σ w = Some l →
  ∃ a, EtcdLeaderID w (store_of (engine_activity l e σ))
       = (Ret (lead e, err_nil), store_of (engine_activity l e σ),
          [EvLoadServer a; EvLead l]).
Proof.
  intros (a & -> & Hw)%handle_inv. exists a.
  rewrite EtcdLeaderID_unfold. simpl. rewrite Hw. simpl.
  by rewrite lookup_insert_eq.
Qed.

(** C1. An adapter that wraps an engine whose leader field is [L]
    answers the leader query with [(L, nil)]. *)
Theorem EtcdLeaderID_returns_leader σ w e (L : uint64) :
  wraps σ w e → lead e = L →
  result_of (EtcdLeaderID w σ) = Ret (L, err_nil).
Proof.
  intros (a & l & ->)%EtcdLeaderID_wraps <-. done.
Qed.

(** C2, as the code has it.  When the engine's leader field holds the
    "no leader" sentinel, the query returns that sentinel with a nil
    error: the sentinel is handed on like any identifier, and no
    error is produced. *)
Theorem EtcdLeaderID_no_leader_is_sentinel σ w e :
  wraps σ w e → lead e = raft_None →
  result_of (EtcdLeaderID w σ) = Ret (raft_None, err_nil)
  ∧ error_of (result_of (EtcdLeaderID w σ)) = Some err_nil.
Proof.
  intros (a & l & ->)%EtcdLeaderID_wraps ->. done.
Qed.

(** C3. Whatever the state of the wrapped engine, the error component
    of the answer is nil. *)
Theorem EtcdLeaderID_error_is_nil σ w e :
  wraps σ w e →
  error_of (result_of (EtcdLeaderID w σ)) = Some err_nil.
Proof.
  intros (a & l & ->)%EtcdLeaderID_wraps. done.
Qed.

(** C4. The query is a pass-through.  The identifier is the value of
    the engine's accessor and the error is nil; the accessor is
    called once (no retry); and when the engine moves on to another
    state between two calls, the second call answers with the new
    state's leader (nothing is cached). *)
Theorem EtcdLeaderID_pass_through σ w l e e' :
  handle σ w = Some l → engines σ !! l = Some e →
  result_of (EtcdLeaderID w σ) = Ret (lead e, err_nil)
  ∧ Lead_calls (trace_of (EtcdLeaderID w σ)) = 1%nat
  ∧ result_of (query_activity_query w l e' σ)
    = Ret ((lead e, err_nil), (lead e', err_nil)).
Proof.
  intros Hh He.
  assert (wraps σ w e) as Hwr by (apply wraps_handle; eauto).
  destruct (EtcdLeaderID_wraps _ _ _ Hwr) as (a & l0 & Hrun).
  destruct (EtcdLeaderID_after_activity σ w l e' Hh) as (a' & Hrun').
  split_and!.
  - by rewrite Hrun.
  - by rewrite Hrun.
  - unfold query_activity_query, mbind, M_bind. rewrite Hrun. simpl.
    change (mkStore (<[l:=e']> (engines σ)) (wrappers σ))
      with (store_of (engine_activity l e' σ)).
    by rewrite Hrun'.
Qed.

(** C5. A call leaves the store as it found it, the engines and the
    adapters alike, and a second call on the store it leaves behaves
    as the first did: nothing is remembered between calls. *)
Theorem EtcdLeaderID_frame σ w :
  engines (store_of (EtcdLeaderID w σ)) = engines σ
  ∧ wrappers (store_of (EtcdLeaderID w σ)) = wrappers σ
  ∧ EtcdLeaderID w (store_of (EtcdLeaderID w σ)) = EtcdLeaderID w σ.
Proof. by rewrite EtcdLeaderID_store. Qed.

(** C6. While the leader field keeps the value [L], each of the calls
    returns [(L, nil)], one call per state the engine passes through,
    whatever else changes in the engine between the calls. *)
Theorem EtcdLeaderID_stable_leader σ w l (es : list EtcdServer) (L : uint64) :
  handle σ w = Some l →
  Forall (λ e, lead e = L) es →
  result_of (calls_under_activity w l es σ)
  = Ret (replicate (length es) (L, err_nil)).
Proof.
  intros Hh Hes. revert σ Hh.
  induction Hes as [|e es He _ IH]; intros σ Hh; [done|].
  destruct (EtcdLeaderID_after_activity σ w l e Hh) as (a & Hrun).
  specialize (IH (store_of (engine_activity l e σ))
                (eq_trans (handle_engine_activity σ w l e) Hh)).
  simpl. unfold mbind, M_bind. simpl.
  change (mkStore (<[l:=e]> (engines σ)) (wrappers σ))
    with (store_of (engine_activity l e σ)).
  rewrite Hrun.
  destruct (calls_under_activity w l es (store_of (engine_activity l e σ)))
    as [[r σ2] t2].
  unfold result_of in IH. simpl in IH. subst r. simpl.
  by rewrite He.
Qed.

(** C7. The query always ends, after at most two primitive steps and
    at most one call of the engine's accessor, whatever the store;
    on an adapter that wraps an engine it returns after exactly the
    two steps. *)
Theorem EtcdLeaderID_terminates σ w :
  ∃ r t,
    EtcdLeaderID w σ = (r, σ, t)
    ∧ (length t ≤ 2)%nat
    ∧ (Lead_calls t ≤ 1)%nat
    ∧ (∀ e, wraps σ w e → r = Ret (lead e, err_nil) ∧ length t = 2%nat).
Proof.
  rewrite EtcdLeaderID_unfold. unfold wraps, backing_engine, Lead_calls.
  destruct w as [|a].
  { eexists _, _. split; [done|]. cbn. split_and!; [lia | lia | done]. }
  destruct (wrappers σ !! a) as [[[|l]]|]; simpl.
  - eexists _, _. split; [done|]. cbn. split_and!; [lia | lia | done].
  - destruct (engines σ !! l) as [e0|].
    + eexists _, _. split; [done|]. cbn.
      split_and!; [lia | lia |]. by intros e [= <-].
    + eexists _, _. split; [done|]. cbn. split_and!; [lia | lia | done].
  - eexists _, _. split; [done|]. cbn. split_and!; [lia | lia | done].
Qed.

(** C8. Construction takes any handle, the nil one included, and
    always succeeds: it allocates a fresh adapter, touches no engine
    and no other adapter, and never calls into the engine.  The handle
    is kept as given, and whether it is usable shows at call time only:
    on the new adapter the selector [w.Server] evaluates to the handle
    that was supplied, and the query returns the leader of the engine
    the handle points to, or panics on the dereference when the handle
    is nil or points to no engine. *)
Theorem new_LeaderGetterWrapper_no_validation σ h :
  ∃ a σ',
    new_LeaderGetterWrapper h σ = (Ret (Ptr a), σ', [EvAlloc a])
    ∧ wrappers σ !! a = None
    ∧ (∀ b, b ≠ a → wrappers σ' !! b = wrappers σ !! b)
    ∧ engines σ' = engines σ
    ∧ Lead_calls (trace_of (new_LeaderGetterWrapper h σ)) = 0%nat
    ∧ load_Server (Ptr a) σ' = (Ret h, σ', [EvLoadServer a])
    ∧ EtcdLeaderID (Ptr a) σ'
      = match h with
        | nilptr => (Panic NilPointerDereference, σ', [EvLoadServer a])
        | Ptr l =>
            match engines σ !! l with
            | Some e => (Ret (lead e, err_nil), σ', [EvLoadServer a; EvLead l])
            | None => (Panic NilPointerDereference, σ', [EvLoadServer a])
            end
        end.
Proof.
  eexists _, _. split; [reflexivity|]. split_and!.
  - apply not_elem_of_dom, is_fresh.
  - intros b Hb. simpl. by rewrite lookup_insert_ne.
  - done.
  - done.
  - simpl. by rewrite lookup_insert_eq.
  - rewrite EtcdLeaderID_unfold. simpl. rewrite lookup_insert_eq. simpl.
    destruct h as [|l]; [done|]. by destruct (engines σ !! l).
Qed.

(** C9. The handle is not checked when the query is made.  On an
    adapter whose [Server] field is nil the call reads the field and
    then panics on the dereference: it wraps no engine, and the call
    does not return, so it returns no error value either.  In any store
    the call returns exactly when the adapter wraps an engine, and what
    it then returns never carries an error. *)
Theorem EtcdLeaderID_nil_Server_panics σ a :
  wrappers σ !! a = Some (mkLeaderGetterWrapper nilptr) →
  EtcdLeaderID (Ptr a) σ = (Panic NilPointerDereference, σ, [EvLoadServer a])
  ∧ backing_engine σ (Ptr a) = None
  ∧ (∀ id err, result_of (EtcdLeaderID (Ptr a) σ) ≠ Ret (id, err))
  ∧ (∀ σ' w', (∃ v, result_of (EtcdLeaderID w' σ') = Ret v) ↔ is_Some (backing_engine σ' w'))
  ∧ (∀ σ' w' id msg, result_of (EtcdLeaderID w' σ') ≠ Ret (id, err_new msg)).
Proof.
  intros Hw. split_and!.
  - rewrite EtcdLeaderID_unfold, Hw. done.
  - unfold backing_engine. by rewrite Hw.
  - rewrite EtcdLeaderID_unfold, Hw. done.
  - intros σ' w'. split.
    + intros [v Hv]. destruct (backing_engine σ' w') eqn:Hb; [done|].
      apply EtcdLeaderID_panics_iff in Hb. congruence.
    + intros [e He]. destruct (EtcdLeaderID_wraps σ' w' e He) as (a' & l' & ->). eauto.
  - intros σ' w' id msg Hr. by apply EtcdLeaderID_error_nil in Hr.
Qed.

(** C10. The answer depends on the engine through its leader field
    only: two adapters, in any two stores, whose engines agree on the
    leader field get the same answer, identifier and error. *)
Theorem EtcdLeaderID_noninterference σ1 σ2 w1 w2 e1 e2 :
  wraps σ1 w1 e1 → wraps σ2 w2 e2 → lead e1 = lead e2 →
  result_of (EtcdLeaderID w1 σ1) = result_of (EtcdLeaderID w2 σ2).
Proof.
  intros (a1 & l1 & ->)%EtcdLeaderID_wraps (a2 & l2 & ->)%EtcdLeaderID_wraps Hl.
  unfold result_of. simpl. by rewrite Hl.
Qed.

(** Construction and query together: an adapter built from the address
    of an allocated engine answers with that engine's leader. *)
Lemma constructed_adapter_returns_leader σ l e :
  engines σ !! l = Some e →
  result_of ((w ← new_LeaderGetterWrapper (Ptr l); EtcdLeaderID w) σ)
  = Ret (lead e, err_nil).
Proof.
  intros He. unfold mbind, M_bind, new_LeaderGetterWrapper. simpl.
  rewrite EtcdLeaderID_unfold. simpl.
  rewrite lookup_insert_eq. simpl. by rewrite He.
Qed.

End properties.

(** ** Properties of the call taken step by step, and of the store *)

Section step_properties.

Context `{Engine EtcdServer}.

Implicit Types (σ : store EtcdServer) (w : ptr (LeaderGetterWrapper EtcdServer)).
Implicit Types (e : EtcdServer) (h : ptr EtcdServer) (a l : loc).
Implicit Types (c : caller EtcdServer) (sys : system EtcdServer).
Implicit Types (sched : list (action EtcdServer)).

(** The run of the method, from the two cells it reads. *)
Lemma EtcdLeaderID_cells σ a l e :
  wrappers σ !! a = Some (mkLeaderGetterWrapper (Ptr l)) →
  engines σ !! l = Some e →
  EtcdLeaderID (Ptr a) σ = (Ret (lead e, err_nil), σ, [EvLoadServer a; EvLead l]).
Proof. intros Hw He. rewrite EtcdLeaderID_unfold, Hw. simpl. by rewrite He. Qed.

(** No step of a call changes the store. *)
Lemma caller_step_store w c σ : (caller_step w c σ).2 = σ.
Proof.
  destruct c as [|[|l]|r]; simpl; try done.
  - destruct w as [|a]; simpl; [done|]. by destruct (wrappers σ !! a).
  - by destruct (engines σ !! l).
Qed.

(** A step takes the call one step further, unless it is over. *)
Lemma caller_step_progress w c σ :
  (Nat.min 2 (steps_done c + 1) ≤ steps_done (caller_step w c σ).1)%nat.
Proof.
  destruct c as [|[|l]|r]; simpl; try lia.
  - destruct w as [|a]; simpl; [lia|]. destruct (wrappers σ !! a); simpl; lia.
  - destruct (engines σ !! l); simpl; lia.
Qed.

Lemma caller_stable_wrappers σ σ' l L wc :
  wrappers σ' = wrappers σ → caller_stable σ l L wc → caller_stable σ' l L wc.
Proof.
  intros Hw [Hh Hc]. split; [|done].
  revert Hh. unfold handle. by rewrite Hw.
Qed.

Lemma caller_step_stable σ l L w c e :
  engines σ !! l = Some e → lead e = L →
  caller_stable σ l L (w, c) →
  caller_stable σ l L (w, (caller_step w c σ).1).
Proof.
  intros He HL [Hh Hc]. simpl in *. split; [done|]. simpl.
  destruct (handle_inv _ _ _ Hh) as (a & -> & Hw).
  destruct Hc as [-> | [-> | ->]]; simpl.
  - rewrite Hw. simpl. by right; left.
  - rewrite He. simpl. right; right. by rewrite HL.
  - by right; right.
Qed.

Lemma system_step_stable l L act sys :
  keeps_leader l L act → system_stable l L sys → system_stable l L (system_step act sys).
Proof.
  intros Hact [(e & He & HL) Hcs]. destruct act as [i | l' e']; simpl.
  - destruct (callers sys !! i) as [[w c]|] eqn:Hi; [|by split; eauto].
    split; simpl; rewrite caller_step_store; [by eauto|].
    apply Forall_insert; [done|].
    apply (caller_step_stable _ _ _ _ _ e); [done | done |].
    by eapply Forall_lookup_1 in Hcs.
  - split; simpl.
    + destruct (decide (l' = l)) as [-> | Hne].
      * exists e'. by rewrite lookup_insert_eq; auto.
      * exists e. by rewrite lookup_insert_ne.
    + eapply Forall_impl; [done|]. intros wc. by apply caller_stable_wrappers.
Qed.

Lemma run_schedule_stable l L sched sys :
  Forall (keeps_leader l L) sched → system_stable l L sys →
  system_stable l L (run_schedule sched sys).
Proof.
  intros Hs. revert sys. induction Hs as [|act sched Hact _ IH]; intros sys Hsys; [done|].
  simpl. by apply IH, system_step_stable.
Qed.

Lemma system_step_caller i act sys w c :
  callers sys !! i = Some (w, c) →
  ∃ c', callers (system_step act sys) !! i = Some (w, c')
        ∧ (Nat.min 2 (steps_done c + runs_of i [act]) ≤ steps_done c')%nat.
Proof.
  intros Hi. destruct act as [j | l e]; cbn [system_step runs_of].
  - destruct (decide (i = j)) as [<- | Hne].
    + rewrite Hi. eexists. split.
      { apply list_lookup_insert_eq. by eapply lookup_lt_Some. }
      cbn [fst callers]. pose proof (caller_step_progress w c (shared sys)). lia.
    + exists c. split; [|lia].
      destruct (callers sys !! j) as [[w' c0]|]; [|done].
      simpl. by rewrite list_lookup_insert_ne.
  - exists c. split; [done | lia].
Qed.

Lemma run_schedule_caller i sched sys w c :
  callers sys !! i = Some (w, c) →
  ∃ c', callers (run_schedule sched sys) !! i = Some (w, c')
        ∧ (Nat.min 2 (steps_done c + runs_of i sched) ≤ steps_done c')%nat.
Proof.
  revert sys c. induction sched as [|act sched IH]; intros sys c Hi.
  { exists c. split; [done | cbn [runs_of]; lia]. }
  destruct (system_step_caller i act sys w c Hi) as (c1 & Hi1 & Hle1).
  destruct (IH _ _ Hi1) as (c2 & Hi2 & Hle2).
  exists c2. split; [done|].
  assert (runs_of i (act :: sched) = (runs_of i [act] + runs_of i sched)%nat) as ->.
  { destruct act; cbn [runs_of]; lia. }
  lia.
Qed.

(** The steps of [w.Server.Lead()] taken one after the other, with
    nothing running in between, are the method: the call stands at
    [Returned] with the method's result, and the store is as it was. *)
Theorem caller_steps_are_the_method σ w :
  caller_step w (caller_step w Invoked σ).1 (caller_step w Invoked σ).2
  = (Returned (result_of (EtcdLeaderID w σ)), σ)
  ∧ steps_done (caller_step w (caller_step w Invoked σ).1 (caller_step w Invoked σ).2).1
    = 2%nat.
Proof.
  rewrite EtcdLeaderID_unfold.
  destruct w as [|a]; simpl; [done|].
  destruct (wrappers σ !! a) as [[[|l]]|]; simpl; try done.
  by destruct (engines σ !! l).
Qed.

(** Calls in flight together.  Any number of calls on adapters of the
    engine at [l] are interleaved step by step, with each other and
    with moves of the engines, in any order; as long as the moves keep
    the leader field of the engine at [l] at [L], every call that has
    returned has returned [(L, nil)], and every call the schedule
    picked twice has returned. *)
Theorem interleaved_calls_stable_leader σ l e0 (L : uint64)
    (ws : list (ptr (LeaderGetterWrapper EtcdServer))) sched :
  engines σ !! l = Some e0 → lead e0 = L →
  Forall (λ w, handle σ w = Some l) ws →
  Forall (keeps_leader l L) sched →
  Forall (λ wc, ∀ r, wc.2 = Returned r → r = Ret (L, err_nil))
    (callers (run_schedule sched (mkSystem ((λ w, (w, Invoked)) <$> ws) σ)))
  ∧ (∀ i w, ws !! i = Some w → (2 ≤ runs_of i sched)%nat →
       callers (run_schedule sched (mkSystem ((λ w, (w, Invoked)) <$> ws) σ)) !! i
       = Some (w, Returned (Ret (L, err_nil)))).
Proof.
  intros He HL Hws Hsched.
  assert (system_stable l L (run_schedule sched (mkSystem ((λ w, (w, Invoked)) <$> ws) σ)))
    as [_ Hfin].
  { apply run_schedule_stable; [done|]. split; simpl; [by eauto|].
    apply Forall_fmap. eapply Forall_impl; [done|].
    intros w Hw. split; [done | by left]. }
  split.
  - eapply Forall_impl; [done|].
    intros [w c] [_ Hc] r Hr. simpl in Hc, Hr. subst c.
    destruct Hc as [? | [? | [= <-]]]; done.
  - intros i w Hi Hruns.
    destruct (run_schedule_caller i sched (mkSystem ((λ w, (w, Invoked)) <$> ws) σ) w Invoked)
      as (c' & Hc' & Hle).
    { simpl. by rewrite list_lookup_fmap, Hi. }
    rewrite Hc'. do 2 f_equal.
    eapply Forall_lookup_1 in Hfin; [|done]. destruct Hfin as [_ Hc]. simpl in Hc.
    destruct Hc as [-> | [-> | ->]]; cbn [steps_done] in Hle; [lia | lia | done].
Qed.

(** A call needs two steps of its own and nothing else: whatever the
    store holds and whatever runs in between, a call the schedule picks
    twice is over, with a result or a panic. *)
Theorem call_is_over_after_two_steps i sched sys w c :
  callers sys !! i = Some (w, c) → (2 ≤ runs_of i sched)%nat →
  ∃ r, callers (run_schedule sched sys) !! i = Some (w, Returned r).
Proof.
  intros Hi Hruns.
  destruct (run_schedule_caller i sched sys w c Hi) as (c' & Hc' & Hle).
  destruct c' as [| s | r]; cbn [steps_done] in Hle; [lia | lia |]. by exists r.
Qed.

(** In a closed store the query on an allocated adapter panics in one
    case only, a nil [Server] field; with any other field it returns
    the leader of the engine the field points to. *)
Theorem EtcdLeaderID_panics_only_on_nil σ a wr :
  closed σ → wrappers σ !! a = Some wr →
  (result_of (EtcdLeaderID (Ptr a) σ) = Panic NilPointerDereference ↔ Server wr = nilptr)
  ∧ (Server wr ≠ nilptr →
     ∃ e, wraps σ (Ptr a) e ∧ result_of (EtcdLeaderID (Ptr a) σ) = Ret (lead e, err_nil)).
Proof.
  intros Hcl Hw. rewrite EtcdLeaderID_unfold, Hw. unfold wraps, backing_engine. rewrite Hw.
  destruct (Server wr) as [|l] eqn:Hs.
  - split; [done|]. by intros [].
  - destruct (Hcl a wr l Hw Hs) as [e He]. rewrite He. split.
    + split; intros [=].
    + intros _. by exists e.
Qed.

(** The query looks at two cells of the store, the adapter and the
    engine its field points to: a store that agrees with [σ] on these
    two gets the same result and the same steps, whatever else it
    holds. *)
Theorem EtcdLeaderID_local σ σ' a l :
  wrappers σ !! a = Some (mkLeaderGetterWrapper (Ptr l)) →
  wrappers σ' !! a = wrappers σ !! a →
  engines σ' !! l = engines σ !! l →
  result_of (EtcdLeaderID (Ptr a) σ') = result_of (EtcdLeaderID (Ptr a) σ)
  ∧ trace_of (EtcdLeaderID (Ptr a) σ') = trace_of (EtcdLeaderID (Ptr a) σ).
Proof.
  intros Hw Hw' He'. rewrite !EtcdLeaderID_unfold, Hw', Hw. simpl. rewrite He'.
  by destruct (engines σ !! l).
Qed.

(** The adapter holds a pointer, not a copy: two adapters built from
    one handle are two objects, and after the engine has moved on both
    answer with the engine's new leader. *)
Theorem two_adapters_share_the_engine σ l e' :
  ∃ a1 a2,
    a1 ≠ a2 ∧ wrappers σ !! a1 = None ∧ wrappers σ !! a2 = None
    ∧ result_of (two_adapters_one_engine l e' σ)
      = Ret (Ptr a1, Ptr a2, (lead e', err_nil), (lead e', err_nil)).
Proof.
  set (a1 := fresh (dom (wrappers σ))).
  set (W1 := <[a1 := mkLeaderGetterWrapper (Ptr l)]> (wrappers σ)).
  set (a2 := fresh (dom W1)).
  assert (a1 ∉ dom (wrappers σ)) as Ha1 by apply is_fresh.
  assert (a2 ∉ dom W1) as Ha2 by apply is_fresh.
  assert (a1 ≠ a2) as Hne.
  { intros Heq. apply Ha2. rewrite <- Heq. unfold W1. rewrite dom_insert_L. set_solver. }
  exists a1, a2. split_and!.
  - done.
  - by apply not_elem_of_dom.
  - apply not_elem_of_dom. intros Hin. apply Ha2. unfold W1. rewrite dom_insert_L. set_solver.
  - set (σ3 := mkStore (<[l := e']> (engines σ))
                  (<[a2 := mkLeaderGetterWrapper (Ptr l)]> W1)).
    assert (EtcdLeaderID (Ptr a1) σ3
            = (Ret (lead e', err_nil), σ3, [EvLoadServer a1; EvLead l])) as Hrun1.
    { apply EtcdLeaderID_cells; simpl; [|by rewrite lookup_insert_eq].
      rewrite lookup_insert_ne by done. unfold W1. by rewrite lookup_insert_eq. }
    assert (EtcdLeaderID (Ptr a2) σ3
            = (Ret (lead e', err_nil), σ3, [EvLoadServer a2; EvLead l])) as Hrun2.
    { apply EtcdLeaderID_cells; simpl; by rewrite lookup_insert_eq. }
    unfold two_adapters_one_engine, mbind, M_bind, new_LeaderGetterWrapper, engine_activity.
    simpl. fold a1. fold W1. fold a2. fold σ3.
    rewrite Hrun1. simpl. rewrite Hrun2. done.
Qed.

(** The answer is the leader at the time of the accessor call, not at
    the time the call was made: when the engine moves on to [e'] after
    the call has read [w.Server] and before it calls [Lead()], the call
    returns the leader of [e']. *)
Theorem call_answers_with_leader_at_Lead σ w l e' :
  handle σ w = Some l →
  callers (run_schedule [Run 0; Activity l e'; Run 0] (mkSystem [(w, Invoked)] σ))
  = [(w, Returned (Ret (lead e', err_nil)))].
Proof.
  intros (a & -> & Hw)%handle_inv. simpl. rewrite Hw. simpl.
  by rewrite lookup_insert_eq.
Qed.

End step_properties.

(** ** The scenarios, on the concrete engine *)

(** The engine keeps leader 42 while its term advances: the states it
    passes through in [n] steps. *)
Definition terms_pass (n : nat) : list raft_state :=
  (λ t, mkRaftState (U64 42) (U64 (Z.of_nat t)) (U64 311)) <$> seq 0 n.

(** C1, scenario: engine leader field = 7, the call returns [(7, nil)]. *)
Lemma EtcdLeaderID_returns_leader_7 :
  wraps (one_engine leader7) (Ptr 2%positive) leader7
  ∧ lead leader7 = U64 7
  ∧ result_of (EtcdLeaderID (Ptr 2%positive) (one_engine leader7)) = Ret (U64 7, err_nil).
Proof.
  split_and!; [reflexivity | reflexivity |].
  apply (EtcdLeaderID_returns_leader (one_engine leader7) (Ptr 2%positive) leader7 (U64 7));
    reflexivity.
Defined.

(** C2, the claim as the specification words it fails: with the leader
    field at the sentinel the call returns [(0, nil)], a nil error. *)
Lemma no_leader_is_an_error_fails :
  wraps (one_engine leaderless) (Ptr 2%positive) leaderless
  ∧ lead leaderless = raft_None
  ∧ result_of (EtcdLeaderID (Ptr 2%positive) (one_engine leaderless)) = Ret (U64 0, err_nil)
  ∧ ¬ @no_leader_is_an_error raft_state raft_state_Engine.
Proof.
  split_and!; [reflexivity | reflexivity | reflexivity |].
  intros Hclaim.
  destruct (Hclaim (one_engine leaderless) (Ptr 2%positive) leaderless eq_refl eq_refl)
    as (id & msg & Hres).
  vm_compute in Hres. discriminate Hres.
Qed.

(** C2, scenario of the amended claim: no leader, the sentinel comes back. *)
Lemma EtcdLeaderID_no_leader_is_sentinel_0 :
  wraps (one_engine leaderless) (Ptr 2%positive) leaderless
  ∧ lead leaderless = raft_None
  ∧ result_of (EtcdLeaderID (Ptr 2%positive) (one_engine leaderless)) = Ret (raft_None, err_nil)
  ∧ error_of (result_of (EtcdLeaderID (Ptr 2%positive) (one_engine leaderless))) = Some err_nil.
Proof.
  split_and!; [reflexivity | reflexivity | |];
    apply (EtcdLeaderID_no_leader_is_sentinel (one_engine leaderless) (Ptr 2%positive) leaderless);
    reflexivity.
Defined.

(** C3, scenario: a second engine beside the wrapped one, nil error. *)
Lemma EtcdLeaderID_error_is_nil_two_engines :
  wraps (two_engines leader42 leaderless) (Ptr 3%positive) leader42
  ∧ error_of (result_of (EtcdLeaderID (Ptr 3%positive) (two_engines leader42 leaderless)))
    = Some err_nil.
Proof.
  split; [reflexivity |].
  apply (EtcdLeaderID_error_is_nil (two_engines leader42 leaderless) (Ptr 3%positive) leader42).
  reflexivity.
Defined.

(** C4, scenario: leader 7, then the engine learns of leader 42. *)
Lemma EtcdLeaderID_pass_through_7_then_42 :
  handle (one_engine leader7) (Ptr 2%positive) = Some 1%positive
  ∧ engines (one_engine leader7) !! 1%positive = Some leader7
  ∧ result_of (EtcdLeaderID (Ptr 2%positive) (one_engine leader7)) = Ret (U64 7, err_nil)
  ∧ Lead_calls (trace_of (EtcdLeaderID (Ptr 2%positive) (one_engine leader7))) = 1%nat
  ∧ result_of (query_activity_query (Ptr 2%positive) 1%positive leader42 (one_engine leader7))
    = Ret ((U64 7, err_nil), (U64 42, err_nil)).
Proof.
  split; [reflexivity |]. split; [reflexivity |].
  exact (EtcdLeaderID_pass_through (one_engine leader7) (Ptr 2%positive) 1%positive
           leader7 leader42 eq_refl eq_refl).
Defined.

(** C6, scenario: 100 calls against a stable leader value of 42. *)
Lemma EtcdLeaderID_stable_leader_100_calls :
  handle (one_engine leader42) (Ptr 2%positive) = Some 1%positive
  ∧ Forall (λ e, lead e = U64 42) (terms_pass 100)
  ∧ result_of (calls_under_activity (Ptr 2%positive) 1%positive (terms_pass 100)
                 (one_engine leader42))
    = Ret (replicate 100 (U64 42, err_nil)).
Proof.
  assert (Forall (λ e, lead e = U64 42) (terms_pass 100)) as Hstable.
  { unfold terms_pass. apply Forall_fmap, Forall_forall. intros t _. reflexivity. }
  split; [reflexivity |]. split; [exact Hstable |].
  apply (EtcdLeaderID_stable_leader (one_engine leader42) (Ptr 2%positive) 1%positive
           (terms_pass 100) (U64 42)); [reflexivity | exact Hstable].
Defined.

(** C7, scenario: the call on a wrapped engine takes its two steps. *)
Lemma EtcdLeaderID_terminates_two_steps :
  wraps (one_engine leader7) (Ptr 2%positive) leader7
  ∧ ∃ t, EtcdLeaderID (Ptr 2%positive) (one_engine leader7)
         = (Ret (U64 7, err_nil), one_engine leader7, t)
         ∧ length t = 2%nat.
Proof.
  split; [reflexivity |].
  destruct (EtcdLeaderID_terminates (one_engine leader7) (Ptr 2%positive))
    as (r & t & Hrun & _ & _ & Hwraps).
  destruct (Hwraps leader7 eq_refl) as [-> Hlen].
  exists t. exact (conj Hrun Hlen).
Defined.

(** C8, scenario: an adapter is built from the nil handle beside the
    adapter of engine 1.  Construction succeeds and leaves the engine
    alone; the query on the new adapter is where the nil handle shows. *)
Lemma new_LeaderGetterWrapper_no_validation_nil_handle :
  ∃ a σ',
    new_LeaderGetterWrapper nilptr (one_engine leader7) = (Ret (Ptr a), σ', [EvAlloc a])
    ∧ engines σ' = engines (one_engine leader7)
    ∧ load_Server (Ptr a) σ' = (Ret nilptr, σ', [EvLoadServer a])
    ∧ EtcdLeaderID (Ptr a) σ' = (Panic NilPointerDereference, σ', [EvLoadServer a]).
Proof.
  destruct (new_LeaderGetterWrapper_no_validation (one_engine leader7) nilptr)
    as (a & σ' & Hnew & _ & _ & Heng & _ & Hload & Hcall).
  exists a, σ'. exact (conj Hnew (conj Heng (conj Hload Hcall))).
Defined.

(** Construction from the nil handle, run: the adapter is allocated at
    the next free address, with a nil [Server] field. *)
Example new_LeaderGetterWrapper_nil :
  new_LeaderGetterWrapper (EtcdServer := raft_state) nilptr (mkStore ∅ ∅)
  = (Ret (Ptr 1%positive),
     mkStore ∅ {[ 1%positive := mkLeaderGetterWrapper nilptr ]},
     [EvAlloc 1%positive]).
Proof. reflexivity. Qed.

(** C9, scenario: an adapter built from the nil handle. *)
Lemma EtcdLeaderID_nil_Server_panics_nil_handle :
  wrappers nil_handle !! 2%positive = Some (mkLeaderGetterWrapper nilptr)
  ∧ EtcdLeaderID (Ptr 2%positive) nil_handle
    = (Panic NilPointerDereference, nil_handle, [EvLoadServer 2%positive])
  ∧ backing_engine nil_handle (Ptr 2%positive) = None.
Proof.
  split; [reflexivity |].
  destruct (EtcdLeaderID_nil_Server_panics nil_handle 2%positive eq_refl)
    as (Hrun & Hnone & _).
  exact (conj Hrun Hnone).
Defined.

(** C10, scenario: two stores of different shape, two engines that
    differ in term and applied index and agree on the leader. *)
Lemma EtcdLeaderID_noninterference_42 :
  wraps (one_engine leader42) (Ptr 2%positive) leader42
  ∧ wraps (two_engines (mkRaftState (U64 42) (U64 9) (U64 0)) leader7) (Ptr 3%positive)
      (mkRaftState (U64 42) (U64 9) (U64 0))
  ∧ leader42 ≠ mkRaftState (U64 42) (U64 9) (U64 0)
  ∧ result_of (EtcdLeaderID (Ptr 2%positive) (one_engine leader42))
    = result_of (EtcdLeaderID (Ptr 3%positive)
                   (two_engines (mkRaftState (U64 42) (U64 9) (U64 0)) leader7)).
Proof.
  split; [reflexivity |]. split; [reflexivity |].
  split; [intros Heq; apply (f_equal (λ e, u64_Z (rs_term e))) in Heq; discriminate Heq |].
  apply (EtcdLeaderID_noninterference (one_engine leader42)
           (two_engines (mkRaftState (U64 42) (U64 9) (U64 0)) leader7)
           (Ptr 2%positive) (Ptr 3%positive)
           leader42 (mkRaftState (U64 42) (U64 9) (U64 0))); reflexivity.
Defined.


(** Scenario: an adapter is built for the engine at address 1 and asked. *)
Lemma constructed_adapter_returns_leader_7 :
  engines (one_engine leader7) !! 1%positive = Some leader7
  ∧ result_of ((w ← new_LeaderGetterWrapper (Ptr 1%positive); EtcdLeaderID w)
                 (one_engine leader7))
    = Ret (U64 7, err_nil).
Proof.
  split; [reflexivity |].
  exact (constructed_adapter_returns_leader (one_engine leader7) 1%positive leader7 eq_refl).
Defined.

(** ** Scenarios for the calls in flight and for the store *)

(** Three calls on the adapter of engine 1; in between, engine 1 moves
    to a later term under the same leader and an engine elsewhere moves
    to another leader. *)
Definition three_calls : list (action raft_state) :=
  [Run 0; Run 1; Activity 1%positive (mkRaftState (U64 42) (U64 6) (U64 400));
   Run 0; Run 2; Activity 5%positive leader7; Run 1; Run 2].

(** A store that agrees with [one_engine leader42] on the adapter at 2
    and the engine at 1, and holds more. *)
Definition crowded : store raft_state :=
  mkStore {[ 1%positive := leader42; 6%positive := leader7 ]}
          {[ 2%positive := mkLeaderGetterWrapper (Ptr 1%positive);
             3%positive := mkLeaderGetterWrapper nilptr ]}.

Lemma one_engine_closed (e : raft_state) : closed (one_engine e).
Proof.
  intros a wr l Hw. unfold one_engine in *. simpl in *.
  apply lookup_singleton_Some in Hw as [<- <-]. intros [= <-].
  rewrite lookup_singleton_eq. done.
Qed.

Lemma nil_handle_closed : closed nil_handle.
Proof.
  intros a wr l Hw. unfold nil_handle in *. simpl in *.
  by apply lookup_singleton_Some in Hw as [<- <-].
Qed.

Lemma three_calls_keep_leader : Forall (keeps_leader 1%positive (U64 42)) three_calls.
Proof.
  unfold three_calls.
  repeat (apply Forall_cons; split); try apply Forall_nil; simpl; try exact I.
  - intros _. reflexivity.
  - intros [=].
Qed.

Lemma interleaved_calls_stable_leader_three_calls :
  engines (one_engine leader42) !! 1%positive = Some leader42
  ∧ lead leader42 = U64 42
  ∧ Forall (λ w, handle (one_engine leader42) w = Some 1%positive)
      [Ptr 2%positive; Ptr 2%positive; Ptr 2%positive]
  ∧ Forall (keeps_leader 1%positive (U64 42)) three_calls
  ∧ (2 ≤ runs_of 2 three_calls)%nat
  ∧ callers (run_schedule three_calls
               (mkSystem ((λ w, (w, Invoked)) <$> [Ptr 2%positive; Ptr 2%positive; Ptr 2%positive])
                  (one_engine leader42))) !! 2%nat
    = Some (Ptr 2%positive, Returned (Ret (U64 42, err_nil))).
Proof.
  assert (Forall (λ w : ptr (LeaderGetterWrapper raft_state),
                    handle (one_engine leader42) w = Some 1%positive)
            [Ptr 2%positive; Ptr 2%positive; Ptr 2%positive]) as Hws.
  { repeat constructor. }
  assert (2 ≤ runs_of 2 three_calls)%nat as Hruns by (vm_compute; lia).
  split; [reflexivity |]. split; [reflexivity |]. split; [exact Hws |].
  split; [exact three_calls_keep_leader |]. split; [exact Hruns |].
  exact (proj2 (interleaved_calls_stable_leader (one_engine leader42) 1%positive leader42
                  (U64 42) [Ptr 2%positive; Ptr 2%positive; Ptr 2%positive] three_calls
                  eq_refl eq_refl Hws three_calls_keep_leader)
           2%nat (Ptr 2%positive) eq_refl Hruns).
Defined.

Lemma call_is_over_after_two_steps_nil_handle :
  callers (mkSystem [(Ptr 2%positive, Invoked)] nil_handle) !! 0%nat
    = Some (Ptr 2%positive, Invoked)
  ∧ (2 ≤ runs_of 0 [Run 0; Activity 1%positive leader7; Run 0])%nat
  ∧ ∃ r, callers (run_schedule [Run 0; Activity 1%positive leader7; Run 0]
                    (mkSystem [(Ptr 2%positive, Invoked)] nil_handle)) !! 0%nat
         = Some (Ptr 2%positive, Returned r).
Proof.
  split; [reflexivity |]. split; [vm_compute; lia |].
  apply (call_is_over_after_two_steps 0 [Run 0; Activity 1%positive leader7; Run 0]
           (mkSystem [(Ptr 2%positive, Invoked)] nil_handle) (Ptr 2%positive) Invoked);
    [reflexivity | vm_compute; lia].
Defined.

Lemma EtcdLeaderID_panics_only_on_nil_nil_handle :
  closed nil_handle
  ∧ wrappers nil_handle !! 2%positive = Some (mkLeaderGetterWrapper nilptr)
  ∧ (result_of (EtcdLeaderID (Ptr 2%positive) nil_handle) = Panic NilPointerDereference
     ↔ Server (mkLeaderGetterWrapper (EtcdServer := raft_state) nilptr) = nilptr).
Proof.
  split; [apply nil_handle_closed |]. split; [reflexivity |].
  exact (proj1 (EtcdLeaderID_panics_only_on_nil nil_handle 2%positive
                  (mkLeaderGetterWrapper nilptr) nil_handle_closed eq_refl)).
Defined.

Lemma EtcdLeaderID_local_crowded :
  wrappers (one_engine leader42) !! 2%positive = Some (mkLeaderGetterWrapper (Ptr 1%positive))
  ∧ wrappers crowded !! 2%positive = wrappers (one_engine leader42) !! 2%positive
  ∧ engines crowded !! 1%positive = engines (one_engine leader42) !! 1%positive
  ∧ result_of (EtcdLeaderID (Ptr 2%positive) crowded)
    = result_of (EtcdLeaderID (Ptr 2%positive) (one_engine leader42))
  ∧ trace_of (EtcdLeaderID (Ptr 2%positive) crowded)
    = trace_of (EtcdLeaderID (Ptr 2%positive) (one_engine leader42)).
Proof.
  split; [reflexivity |]. split; [reflexivity |]. split; [reflexivity |].
  exact (EtcdLeaderID_local (one_engine leader42) crowded 2%positive 1%positive
           eq_refl eq_refl eq_refl).
Defined.

Lemma call_answers_with_leader_at_Lead_7_then_42 :
  handle (one_engine leader7) (Ptr 2%positive) = Some 1%positive
  ∧ callers (run_schedule [Run 0; Activity 1%positive leader42; Run 0]
               (mkSystem [(Ptr 2%positive, Invoked)] (one_engine leader7)))
    = [(Ptr 2%positive, Returned (Ret (U64 42, err_nil)))].
Proof.
  split; [reflexivity |].
  exact (call_answers_with_leader_at_Lead (one_engine leader7) (Ptr 2%positive) 1%positive
           leader42 eq_refl).
Defined.
